(** * NFC vinyl jukebox: DFPlayer Mini framing and tag-presence loop

    A shallow embedding of [main.py] (Raspberry Pi Pico + PN532 + DFPlayer
    Mini).  The serial driver [DFPlayerMini] and the body of the polling loop
    of [main] are translated function by function.  Python integers are [Z]
    (unbounded, [>>] is [Z.shiftr], [&] is [Z.land]); [bytes] and [bytearray]
    values are lists of [byte]; the dictionary [TAG_TO_TRACK] is a [gmap]
    keyed by strings.  Everything the program does to the outside world
    (polling the reader, writing to the UART, sleeping, printing) is recorded,
    in program order, in an output trace. *)

From Stdlib Require Import ZArith QArith List String Ascii Lia.
From Stdlib Require Import Strings.Byte.
From stdpp Require Import gmap strings list.

Import ListNotations.
Local Open Scope string_scope.
Local Open Scope list_scope.
Local Open Scope Z_scope.

(** ** Values and effects *)

(** The contents of a Python [bytes] or [bytearray] object. *)
Definition bytes := list byte.

Definition int_of_byte (b : byte) : Z := Z.of_N (Byte.to_N b).

(** [==] on [bytes] objects compares contents. *)
#[global] Instance byte_eq_decision : EqDecision byte := Byte.byte_eq_dec.

(** One positional argument of a [print] call. *)
Inductive pyarg :=
| PStr (s : string)
| PInt (n : Z).

(** What the program does to its environment.  [ReadPassiveTarget] also
    carries the answer the reader gave. *)
Inductive effect :=
| ReadPassiveTarget (timeout : Q) (uid : option bytes)
| UartWrite (frame : bytes)
| Sleep (seconds : Q)
| Print (args : list pyarg).

Inductive exn :=
| ValueError.

(** A computation either finishes with a value or raises; in both cases it
    has produced a trace. *)
Inductive result (A : Type) :=
| Ok (a : A) (out : list effect)
| Raise (e : exn) (out : list effect).

Arguments Ok {A} a out.
Arguments Raise {A} e out.

Definition ret {A} (a : A) : result A := Ok a [].

Definition bind {A B} (m : result A) (k : A -> result B) : result B :=
  match m with
  | Ok a out =>
      match k a with
      | Ok b out' => Ok b (out ++ out')
      | Raise e out' => Raise e (out ++ out')
      end
  | Raise e out => Raise e out
  end.

Declare Scope py_scope.
Delimit Scope py_scope with py.
Notation "x <~ m ;; k" := (bind m (fun x => k))
  (at level 20, m at level 99, k at level 200, only parsing) : py_scope.
Notation "m ;; k" := (bind m (fun _ => k))
  (at level 100, k at level 200, only parsing, right associativity) : py_scope.
Local Open Scope py_scope.

Definition emit (e : effect) : result unit := Ok tt [e].
Definition raise {A} (e : exn) : result A := Raise e [].

Definition trace {A} (r : result A) : list effect :=
  match r with
  | Ok _ out => out
  | Raise _ out => out
  end.

Definition halted {A} (r : result A) : bool :=
  match r with
  | Ok _ _ => false
  | Raise _ _ => true
  end.

(** The frames handed to [uart.write], in order. *)
Definition frames_written (out : list effect) : list bytes :=
  omap (fun e => match e with UartWrite f => Some f | _ => None end) out.

(** ** The [bytes([...])] constructor

    [bytes] applied to a list of integers raises [ValueError] unless every
    element lies in [range(256)]. *)

Definition byte_of_int (z : Z) : option byte :=
  if z <? 0 then None else Byte.of_N (Z.to_N z).

Definition bytes_of_ints (l : list Z) : result bytes :=
  match mapM byte_of_int l with
  | Some bs => ret bs
  | None => raise ValueError
  end.

(** ** The DFPlayer Mini driver *)

Module DFPlayerMini.

Definition _send_command (cmd param : Z) : result unit :=
  let version := 0xFF in
  let length := 0x06 in
  let feedback := 0x00 in
  let high := Z.land (Z.shiftr param 8) 0xFF in
  let low := Z.land param 0xFF in
  let checksum := 0xFFFF - (version + length + cmd + feedback + high + low) + 1 in
  let cs_high := Z.land (Z.shiftr checksum 8) 0xFF in
  let cs_low := Z.land checksum 0xFF in
  frame <~ bytes_of_ints
             [0x7E; version; length; cmd; feedback; high; low;
              cs_high; cs_low; 0xEF] ;;
  emit (UartWrite frame).

Definition reset : result unit :=
  _send_command 0x0C 0 ;;
  emit (Sleep 1.5).

Definition set_volume (level : Z) : result unit :=
  let level := if level <? 0 then 0 else level in
  let level := if level >? 30 then 30 else level in
  _send_command 0x06 level ;;
  emit (Sleep 0.1).

Definition play_track (track_number : Z) : result unit :=
  let track_number := if track_number <? 1 then 1 else track_number in
  _send_command 0x03 track_number.

End DFPlayerMini.

(** ** The main loop *)

(** ["{:02X}".format(b)] for a byte [b]: two upper-case hexadecimal
    digits. *)
Definition hex_digit (n : N) : ascii :=
  nth (N.to_nat n) (list_ascii_of_string "0123456789ABCDEF") "0"%char.

Definition format_02X (b : byte) : string :=
  let n := Byte.to_N b in
  String (hex_digit (n / 16)) (String (hex_digit (n mod 16)) EmptyString).

Definition uid_bytes_to_hex (uid_bytes : bytes) : string :=
  String.concat "" (map format_02X uid_bytes).

Definition NO_TRACK_NOTICE : string :=
  "No track mapped for this UID yet. Add it to TAG_TO_TRACK.".

Section MainLoop.

(** The configuration table, a dictionary from UID strings to track
    numbers. *)
Variable TAG_TO_TRACK : gmap string Z.

(** One pass through the body of [while True], started with [last_uid]
    and with the reader answering [uid].  The result is the value of
    [last_uid] at the start of the next pass.  The two [continue]
    statements are the two branches that return early. *)
Definition loop_iteration (last_uid uid : option bytes)
  : result (option bytes) :=
  emit (ReadPassiveTarget 0.5 uid) ;;
  match uid with
  | None =>
      match last_uid with
      | Some _ =>
          emit (Print [PStr "Tag removed."]) ;;
          ret None
      | None => ret last_uid
      end
  | Some uid =>
      if match last_uid with
         | Some last => bool_decide (uid = last)
         | None => false
         end
      then ret last_uid
      else
        let last_uid := Some uid in
        let uid_str := uid_bytes_to_hex uid in
        emit (Print [PStr "Tag detected, UID ="; PStr uid_str]) ;;
        match TAG_TO_TRACK !! uid_str with
        | None => emit (Print [PStr NO_TRACK_NOTICE])
        | Some track =>
            emit (Print [PStr "Playing track"; PInt track]) ;;
            DFPlayerMini.play_track track
        end ;;
        emit (Sleep 0.3) ;;
        ret last_uid
  end.

(** The loop run on the answers [polls] of the reader, one per pass.  An
    exception leaves the loop. *)
Fixpoint main_loop (last_uid : option bytes) (polls : list (option bytes))
  : result (option bytes) :=
  match polls with
  | [] => ret last_uid
  | uid :: polls =>
      last_uid <~ loop_iteration last_uid uid ;;
      main_loop last_uid polls
  end.

End MainLoop.

(** ** Presence events, read off the notices

    A pass announces an arrival by printing the detected UID and a removal
    by printing ["Tag removed."]; the removed tag is the one held in
    [last_uid] at that moment. *)

Inductive event :=
| TagArrived (id : bytes)
| TagRemoved (id : bytes).

Definition notice_event (last_uid uid : option bytes) (e : effect)
  : option event :=
  match e with
  | Print [PStr s] =>
      if String.eqb s "Tag removed." then
        match last_uid with
        | Some last => Some (TagRemoved last)
        | None => None
        end
      else None
  | Print [PStr s; PStr h] =>
      if String.eqb s "Tag detected, UID =" then
        match uid with
        | Some u =>
            if String.eqb h (uid_bytes_to_hex u) then Some (TagArrived u)
            else None
        | None => None
        end
      else None
  | _ => None
  end.

Definition iteration_events (last_uid uid : option bytes) (out : list effect)
  : list event :=
  omap (notice_event last_uid uid) out.

Fixpoint loop_events (TAG_TO_TRACK : gmap string Z) (last_uid : option bytes)
    (polls : list (option bytes)) : list event :=
  match polls with
  | [] => []
  | uid :: polls =>
      match loop_iteration TAG_TO_TRACK last_uid uid with
      | Ok last_uid' out =>
          iteration_events last_uid uid out
            ++ loop_events TAG_TO_TRACK last_uid' polls
      | Raise _ out => iteration_events last_uid uid out
      end
  end.

(** The pass ended normally and the last thing it did was the debounce
    pause. *)
Definition ends_with_debounce_pause {A} (r : result A) : Prop :=
  exists a out, r = Ok a (out ++ [Sleep 0.3]).

(** ** Receiver-side view of a frame *)

Definition payload_sum (frame : bytes) : Z :=
  match frame with
  | [_; version; length; cmd; feedback; high; low; _; _; _] =>
      int_of_byte version + int_of_byte length + int_of_byte cmd
      + int_of_byte feedback + int_of_byte high + int_of_byte low
  | _ => 0
  end.

Definition frame_checksum (frame : bytes) : Z :=
  match frame with
  | [_; _; _; _; _; _; _; cs_high; cs_low; _] =>
      int_of_byte cs_high * 256 + int_of_byte cs_low
  | _ => 0
  end.

(** The value of [last_uid] once the loop has consumed [polls]. *)
Definition last_uid_after (TAG_TO_TRACK : gmap string Z)
    (last_uid : option bytes) (polls : list (option bytes)) : option bytes :=
  match main_loop TAG_TO_TRACK last_uid polls with
  | Ok last_uid' _ => last_uid'
  | Raise _ _ => None
  end.

(** The transition table of the presence debouncer as the specification
    words it (Idle is [None], Present is [Some]); the loop is compared with
    it in [loop_iteration_presence]. *)
Definition presence_step (state sample : option bytes)
  : option bytes * list event :=
  match state, sample with
  | None, None => (None, [])
  | None, Some id => (Some id, [TagArrived id])
  | Some last, Some id =>
      if bool_decide (id = last) then (Some last, [])
      else (Some id, [TagArrived id])
  | Some last, None => (None, [TagRemoved last])
  end.

(** What a pass that found a new tag [uid] does between announcing it and
    pausing: the notice for an unmapped tag, or the notice and the frame of
    [play_track]. *)
Definition handled (TAG_TO_TRACK : gmap string Z) (uid : bytes)
    (mid : list effect) : Prop :=
  match TAG_TO_TRACK !! uid_bytes_to_hex uid with
  | None => mid = [Print [PStr NO_TRACK_NOTICE]]
  | Some track =>
      exists frame,
        DFPlayerMini.play_track track = Ok tt [UartWrite frame]
        /\ mid = [Print [PStr "Playing track"; PInt track]; UartWrite frame]
  end.

(** ** Start-up of the player

    [init_dfplayer] opens the UART (9600 baud, 8N1, pins 4 and 5), waits
    for the module to boot, resets it and sets the configured volume.
    Opening the port puts nothing on the line and has no entry in the
    trace; everything after it is recorded.  The player object it returns
    is the driver above.  [DEFAULT_VOLUME] is the module-level
    configuration constant (20 as shipped). *)

Section Startup.

Variable DEFAULT_VOLUME : Z.

Definition init_dfplayer : result unit :=
  emit (Print [PStr "Initializing DFPlayer Mini over UART..."]) ;;
  emit (Sleep 1.0) ;;
  DFPlayerMini.reset ;;
  DFPlayerMini.set_volume DEFAULT_VOLUME ;;
  emit (Print [PStr "DFPlayer ready at volume"; PInt DEFAULT_VOLUME]).

End Startup.

(** ** Reading a trace *)

(** The calls of [read_passive_target]: timeout and answer. *)
Definition polls_made (out : list effect) : list (Q * option bytes) :=
  omap (fun e =>
          match e with
          | ReadPassiveTarget t uid => Some (t, uid)
          | _ => None
          end) out.

(** The arguments of the [time.sleep] calls. *)
Definition pauses (out : list effect) : list Q :=
  omap (fun e => match e with Sleep s => Some s | _ => None end) out.

Definition is_arrival (e : event) : bool :=
  match e with
  | TagArrived _ => true
  | TagRemoved _ => false
  end.

(** The frames [play_track] writes for the arrivals among [events] whose
    UID string has an entry in the table. *)
Definition play_frames (TAG_TO_TRACK : gmap string Z) (events : list event)
  : list bytes :=
  flat_map
    (fun e =>
       match e with
       | TagArrived id =>
           match TAG_TO_TRACK !! uid_bytes_to_hex id with
           | Some track => frames_written (trace (DFPlayerMini.play_track track))
           | None => []
           end
       | TagRemoved _ => []
       end) events.

(** An event sequence that makes sense for a reader holding [present]: a
    removal names the tag that is present, an arrival names another one. *)
Fixpoint coherent (present : option bytes) (events : list event) : Prop :=
  match events with
  | [] => True
  | TagArrived id :: events => present <> Some id /\ coherent (Some id) events
  | TagRemoved id :: events => present = Some id /\ coherent None events
  end.

Definition is_play_frame (frame : bytes) : Prop :=
  exists ph pl ch cl,
    frame = [x7e; xff; x06; x03; x00; ph; pl; ch; cl; xef].

(** ** Reading a UID string back

    The inverse of [uid_bytes_to_hex], used to show that distinct UIDs
    give distinct table keys. *)

Definition hex_value (c : ascii) : option N :=
  let n := N_of_ascii c in
  if ((48 <=? n) && (n <=? 57))%N then Some (n - 48)%N
  else if ((65 <=? n) && (n <=? 70))%N then Some (n - 55)%N
  else None.

Definition byte_of_hex (hi lo : ascii) : option byte :=
  match hex_value hi, hex_value lo with
  | Some h, Some l => Byte.of_N (16 * h + l)
  | _, _ => None
  end.

Fixpoint hex_to_uid_bytes (s : string) : option bytes :=
  match s with
  | EmptyString => Some []
  | String hi (String lo rest) =>
      match byte_of_hex hi lo, hex_to_uid_bytes rest with
      | Some b, Some uid => Some (b :: uid)
      | _, _ => None
      end
  | String _ EmptyString => None
  end.

(** ** Sample runs *)

Definition sample_uid : bytes := [x04; xaa; xbb; xcc; xdd; x11].

Example sample_uid_hex : uid_bytes_to_hex sample_uid = "04AABBCCDD11".
Proof. reflexivity. Qed.

Example empty_stream :
  loop_events ∅ None [None; None; None] = [].
Proof. vm_compute. reflexivity. Qed.

Example sample_arrival :
  loop_events {["04AABBCCDD11" := 3]} None [Some sample_uid; None]
  = [TagArrived sample_uid; TagRemoved sample_uid].
Proof. vm_compute. reflexivity. Qed.

Example sample_play :
  main_loop {["04AABBCCDD11" := 3]} None [Some sample_uid]
  = Ok (Some sample_uid)
      [ReadPassiveTarget 0.5 (Some sample_uid);
       Print [PStr "Tag detected, UID ="; PStr "04AABBCCDD11"];
       Print [PStr "Playing track"; PInt 3];
       UartWrite [x7e; xff; x06; x03; x00; x00; x03; xfe; xf5; xef];
       Sleep 0.3].
Proof. vm_compute. reflexivity. Qed.

Example reset_frame :
  DFPlayerMini.reset
  = Ok tt [UartWrite [x7e; xff; x06; x0c; x00; x00; x00; xfe; xef; xef];
           Sleep 1.5].
Proof. reflexivity. Qed.

(** ** Arithmetic of bytes *)

Lemma byte_of_int_range (z : Z) :
  0 <= z < 256 ->
  exists b, byte_of_int z = Some b /\ int_of_byte b = z.
Proof.
  intros Hz. unfold byte_of_int.
  destruct (Z.ltb_spec z 0) as [Hneg | _]; [lia |].
  destruct (Byte.of_N (Z.to_N z)) as [b |] eqn:E.
  - exists b. split; [reflexivity |].
    apply Byte.to_of_N in E. unfold int_of_byte. rewrite E. lia.
  - apply Byte.of_N_None_iff in E. lia.
Qed.

Lemma int_of_byte_range (b : byte) : 0 <= int_of_byte b < 256.
Proof.
  unfold int_of_byte. pose proof (Byte.to_N_bounded b). lia.
Qed.

Lemma int_of_byte_inj (a b : byte) : int_of_byte a = int_of_byte b -> a = b.
Proof.
  unfold int_of_byte. intros H. apply N2Z.inj in H.
  pose proof (Byte.of_to_N a) as Ha. pose proof (Byte.of_to_N b) as Hb.
  rewrite H in Ha. congruence.
Qed.

Lemma low_byte_mod (z : Z) : Z.land z 0xFF = z mod 256.
Proof. change 0xFF with (Z.ones 8). rewrite Z.land_ones by lia. reflexivity. Qed.

Lemma high_byte_div (z : Z) : Z.land (Z.shiftr z 8) 0xFF = (z / 256) mod 256.
Proof. rewrite low_byte_mod, Z.shiftr_div_pow2 by lia. reflexivity. Qed.

Lemma low_byte_range (z : Z) : 0 <= Z.land z 0xFF < 256.
Proof. rewrite low_byte_mod. apply Z.mod_pos_bound. lia. Qed.

(** ** What [_send_command] writes *)

Lemma send_command_frame (cmd param : Z) :
  0 <= cmd < 256 ->
  exists c ph pl ch cl,
    DFPlayerMini._send_command cmd param
    = Ok tt [UartWrite [x7e; xff; x06; c; x00; ph; pl; ch; cl; xef]]
    /\ int_of_byte c = cmd
    /\ int_of_byte ph = Z.land (Z.shiftr param 8) 0xFF
    /\ int_of_byte pl = Z.land param 0xFF
    /\ int_of_byte ch * 256 + int_of_byte cl
       = 0x10000 - (0xFF + 0x06 + cmd + 0x00 + int_of_byte ph + int_of_byte pl).
Proof.
  intros Hcmd.
  set (high := Z.land (Z.shiftr param 8) 0xFF).
  set (low := Z.land param 0xFF).
  set (checksum := 0xFFFF - (0xFF + 0x06 + cmd + 0x00 + high + low) + 1).
  assert (Hhigh : 0 <= high < 256) by apply low_byte_range.
  assert (Hlow : 0 <= low < 256) by apply low_byte_range.
  destruct (byte_of_int_range cmd Hcmd) as (c & Ec & Hc).
  destruct (byte_of_int_range high Hhigh) as (ph & Eph & Hph).
  destruct (byte_of_int_range low Hlow) as (pl & Epl & Hpl).
  destruct (byte_of_int_range (Z.land (Z.shiftr checksum 8) 0xFF)
              (low_byte_range _)) as (ch & Ech & Hch).
  destruct (byte_of_int_range (Z.land checksum 0xFF)
              (low_byte_range _)) as (cl & Ecl & Hcl).
  exists c, ph, pl, ch, cl.
  split.
  - unfold DFPlayerMini._send_command, bytes_of_ints.
    fold high low. fold checksum.
    cbn [mapM]. rewrite Ec, Eph, Epl, Ech, Ecl. reflexivity.
  - repeat split; try assumption.
    rewrite Hch, Hcl, Hph, Hpl.
    rewrite (high_byte_div checksum), (low_byte_mod checksum).
    transitivity checksum; [| unfold checksum, high, low; lia].
    assert (Hcs : 0 <= checksum < 65536) by (unfold checksum; lia).
    clearbody checksum. clear - Hcs.
    pose proof (Z.div_mod checksum 256 ltac:(lia)) as Hdm.
    rewrite (Z.mod_small (checksum / 256) 256); [lia |].
    split; [apply Z.div_pos; lia | apply Z.div_lt_upper_bound; lia].
Qed.

Lemma send_command_byte (c : byte) (param : Z) :
  exists ph pl ch cl,
    DFPlayerMini._send_command (int_of_byte c) param
    = Ok tt [UartWrite [x7e; xff; x06; c; x00; ph; pl; ch; cl; xef]]
    /\ int_of_byte ph = Z.land (Z.shiftr param 8) 0xFF
    /\ int_of_byte pl = Z.land param 0xFF.
Proof.
  destruct (send_command_frame (int_of_byte c) param (int_of_byte_range c))
    as (c' & ph & pl & ch & cl & E & Hc & Hph & Hpl & _).
  apply int_of_byte_inj in Hc. subst c'.
  exists ph, pl, ch, cl. auto.
Qed.

Lemma big_endian_16 (z : Z) :
  Z.land (Z.shiftr z 8) 0xFF * 256 + Z.land z 0xFF = z mod 65536.
Proof.
  rewrite high_byte_div, low_byte_mod.
  change 65536 with (256 * 256).
  rewrite Z.rem_mul_r by lia. lia.
Qed.

Lemma volume_clamp (level : Z) :
  (let level := if level <? 0 then 0 else level in
   if level >? 30 then 30 else level)
  = Z.min 30 (Z.max 0 level).
Proof.
  cbv zeta.
  destruct (Z.ltb_spec level 0); [change (0 >? 30) with false; cbv iota; lia |].
  destruct (Z.gtb_spec level 30); lia.
Qed.

Lemma track_clamp (track_number : Z) :
  (if track_number <? 1 then 1 else track_number) = Z.max 1 track_number.
Proof. destruct (Z.ltb_spec track_number 1); lia. Qed.

Lemma play_track_ok (track_number : Z) :
  exists frame, DFPlayerMini.play_track track_number = Ok tt [UartWrite frame].
Proof.
  unfold DFPlayerMini.play_track.
  destruct (send_command_byte x03 (if track_number <? 1 then 1 else track_number))
    as (ph & pl & ch & cl & E & _).
  change (int_of_byte x03) with 0x03 in E. cbv zeta. rewrite E. eauto.
Qed.

(** ** One pass of the loop, case by case *)

Section Iteration.

Variable TAG_TO_TRACK : gmap string Z.

Lemma iteration_absent :
  loop_iteration TAG_TO_TRACK None None
  = Ok None [ReadPassiveTarget 0.5 None].
Proof. reflexivity. Qed.

Lemma iteration_removed (last : bytes) :
  loop_iteration TAG_TO_TRACK (Some last) None
  = Ok None [ReadPassiveTarget 0.5 None; Print [PStr "Tag removed."]].
Proof. reflexivity. Qed.

Lemma iteration_same (uid : bytes) :
  loop_iteration TAG_TO_TRACK (Some uid) (Some uid)
  = Ok (Some uid) [ReadPassiveTarget 0.5 (Some uid)].
Proof.
  unfold loop_iteration. rewrite bool_decide_true by reflexivity.
  reflexivity.
Qed.

Lemma iteration_new (last_uid : option bytes) (uid : bytes) :
  last_uid <> Some uid ->
  exists mid,
    handled TAG_TO_TRACK uid mid
    /\ loop_iteration TAG_TO_TRACK last_uid (Some uid)
       = Ok (Some uid)
           ([ReadPassiveTarget 0.5 (Some uid);
             Print [PStr "Tag detected, UID ="; PStr (uid_bytes_to_hex uid)]]
            ++ mid ++ [Sleep 0.3]).
Proof.
  intros Hnew. unfold loop_iteration, handled.
  assert (Htest : match last_uid with
                  | Some last => bool_decide (uid = last)
                  | None => false
                  end = false).
  { destruct last_uid as [last |]; [| reflexivity].
    apply bool_decide_false. congruence. }
  rewrite Htest. cbv zeta.
  destruct (TAG_TO_TRACK !! uid_bytes_to_hex uid) as [track |].
  - destruct (play_track_ok track) as (frame & E).
    exists [Print [PStr "Playing track"; PInt track]; UartWrite frame].
    split; [eauto |]. rewrite E. reflexivity.
  - exists [Print [PStr NO_TRACK_NOTICE]]. split; reflexivity.
Qed.

Lemma handled_silent (last_uid : option bytes) (uid : bytes)
    (mid : list effect) :
  handled TAG_TO_TRACK uid mid -> iteration_events last_uid (Some uid) mid = [].
Proof.
  unfold handled.
  destruct (TAG_TO_TRACK !! uid_bytes_to_hex uid) as [track |].
  - intros (frame & _ & ->). reflexivity.
  - intros ->. reflexivity.
Qed.

(** The loop follows the transition table: same next state, and the
    notices it prints are the table's events. *)
Lemma loop_iteration_presence (last_uid uid : option bytes) :
  exists out,
    loop_iteration TAG_TO_TRACK last_uid uid
    = Ok (presence_step last_uid uid).1 out
    /\ iteration_events last_uid uid out = (presence_step last_uid uid).2.
Proof.
  destruct uid as [uid |].
  - destruct (decide (last_uid = Some uid)) as [-> | Hnew].
    + rewrite iteration_same. simpl.
      rewrite bool_decide_true by reflexivity. eauto.
    + destruct (iteration_new last_uid uid Hnew) as (mid & Hmid & E).
      rewrite E.
      assert (Hstep : presence_step last_uid (Some uid)
                      = (Some uid, [TagArrived uid])).
      { destruct last_uid as [last |]; [| reflexivity]. simpl.
        rewrite bool_decide_false by congruence. reflexivity. }
      rewrite Hstep. eexists. split; [reflexivity |].
      unfold iteration_events. rewrite omap_app, omap_app.
      fold (iteration_events last_uid (Some uid) mid).
      rewrite (handled_silent _ _ _ Hmid).
      cbn. rewrite String.eqb_refl. reflexivity.
  - destruct last_uid as [last |].
    + rewrite iteration_removed. eauto.
    + rewrite iteration_absent. eauto.
Qed.

Lemma loop_events_cons (last_uid uid : option bytes)
    (polls : list (option bytes)) :
  loop_events TAG_TO_TRACK last_uid (uid :: polls)
  = (presence_step last_uid uid).2
      ++ loop_events TAG_TO_TRACK (presence_step last_uid uid).1 polls.
Proof.
  destruct (loop_iteration_presence last_uid uid) as (out & E & Hev).
  simpl. rewrite E, Hev. reflexivity.
Qed.

Lemma main_loop_ok (polls : list (option bytes)) :
  forall last_uid, exists last_uid' out,
    main_loop TAG_TO_TRACK last_uid polls = Ok last_uid' out.
Proof.
  induction polls as [| uid polls IH]; intros last_uid.
  - simpl. unfold ret. eauto.
  - destruct (loop_iteration_presence last_uid uid) as (out & E & _).
    destruct (IH (presence_step last_uid uid).1) as (st & out' & E').
    simpl. rewrite E. simpl. rewrite E'. eauto.
Qed.

Lemma last_uid_after_cons (last_uid uid : option bytes)
    (polls : list (option bytes)) :
  last_uid_after TAG_TO_TRACK last_uid (uid :: polls)
  = last_uid_after TAG_TO_TRACK (presence_step last_uid uid).1 polls.
Proof.
  unfold last_uid_after.
  destruct (loop_iteration_presence last_uid uid) as (out & E & _).
  destruct (main_loop_ok polls (presence_step last_uid uid).1)
    as (st & out' & E').
  simpl. rewrite E. simpl. rewrite E'. reflexivity.
Qed.

Lemma loop_events_app (polls polls' : list (option bytes)) :
  forall last_uid,
    loop_events TAG_TO_TRACK last_uid (polls ++ polls')
    = loop_events TAG_TO_TRACK last_uid polls
        ++ loop_events TAG_TO_TRACK
             (last_uid_after TAG_TO_TRACK last_uid polls) polls'.
Proof.
  induction polls as [| uid polls IH]; intros last_uid.
  - reflexivity.
  - rewrite <- app_comm_cons, !loop_events_cons, last_uid_after_cons, IH.
    rewrite app_assoc. reflexivity.
Qed.

Lemma present_run (id : bytes) (n : nat) :
  loop_events TAG_TO_TRACK (Some id) (repeat (Some id) n) = []
  /\ last_uid_after TAG_TO_TRACK (Some id) (repeat (Some id) n) = Some id.
Proof.
  induction n as [| n [IHe IHs]]; [split; reflexivity |].
  cbn [repeat]. rewrite loop_events_cons, last_uid_after_cons. simpl.
  rewrite bool_decide_true by reflexivity. simpl. auto.
Qed.

End Iteration.

(** ** The command encoder *)

(** A command code outside [range(256)] makes [bytes] raise, so the
    encoder's properties are stated for codes that fit a byte. *)
Example send_command_bad_code :
  DFPlayerMini._send_command 256 0 = Raise ValueError [].
Proof. reflexivity. Qed.

(** C1.  For every command code (a byte) and every parameter, the frame
    written by [_send_command] carries a checksum that cancels the sum of
    its six payload bytes modulo 65536; equivalently the checksum emitted is
    [0xFFFF - (version + length + command + feedback + high + low) + 1]
    truncated to 16 bits.  The parameter is not restricted to 16 bits here:
    only its two low bytes enter the frame. *)
Theorem send_command_checksum (cmd param : Z) :
  0 <= cmd < 256 ->
  exists frame,
    DFPlayerMini._send_command cmd param = Ok tt [UartWrite frame]
    /\ payload_sum frame
       = 0xFF + 0x06 + cmd + 0x00
         + Z.land (Z.shiftr param 8) 0xFF + Z.land param 0xFF
    /\ (payload_sum frame + frame_checksum frame) mod 65536 = 0
    /\ frame_checksum frame = (0xFFFF - payload_sum frame + 1) mod 65536.
Proof.
  intros Hcmd.
  destruct (send_command_frame cmd param Hcmd)
    as (c & ph & pl & ch & cl & E & Hc & Hph & Hpl & Hcs).
  eexists. split; [exact E |].
  pose proof (int_of_byte_range ph). pose proof (int_of_byte_range pl).
  unfold payload_sum, frame_checksum.
  change (int_of_byte xff) with 0xFF. change (int_of_byte x06) with 0x06.
  change (int_of_byte x00) with 0x00.
  rewrite Hcs, Hc, <- Hph, <- Hpl.
  split; [reflexivity |]. split.
  - replace (_ + _) with (1 * 65536) by lia. apply Z.mod_mul. lia.
  - rewrite Z.mod_small by lia. lia.
Qed.

Lemma send_command_checksum_witness :
  0 <= 0x03 < 256
  /\ exists frame,
       DFPlayerMini._send_command 0x03 3 = Ok tt [UartWrite frame]
       /\ payload_sum frame
          = 0xFF + 0x06 + 0x03 + 0x00
            + Z.land (Z.shiftr 3 8) 0xFF + Z.land 3 0xFF
       /\ (payload_sum frame + frame_checksum frame) mod 65536 = 0
       /\ frame_checksum frame = (0xFFFF - payload_sum frame + 1) mod 65536.
Proof.
  split; [lia | apply (send_command_checksum 0x03 3); lia].
Defined.

(** C2.  Reset, SetVolume with any level and PlayTrack with any index each
    write one frame of exactly ten bytes: 7E, FF (version), 06 (length), the
    command code (0C, 06, 03 respectively), 00 (feedback), the two bytes
    of the parameter actually sent, high byte first, two checksum bytes, and
    EF.  The parameter sent is 0 for Reset, the level brought into 0..30 for
    SetVolume and the index raised to at least 1 for PlayTrack; whenever it
    fits 16 bits the two bytes are its big-endian representation. *)
Theorem command_frame_shape :
  (exists ch cl,
      DFPlayerMini.reset
      = Ok tt [UartWrite [x7e; xff; x06; x0c; x00; x00; x00; ch; cl; xef];
               Sleep 1.5])
  /\ (forall level, exists ph pl ch cl,
         DFPlayerMini.set_volume level
         = Ok tt [UartWrite [x7e; xff; x06; x06; x00; ph; pl; ch; cl; xef];
                  Sleep 0.1]
         /\ int_of_byte ph = 0
         /\ int_of_byte pl = Z.min 30 (Z.max 0 level)
         /\ int_of_byte ph * 256 + int_of_byte pl = Z.min 30 (Z.max 0 level))
  /\ (forall index, exists ph pl ch cl,
         DFPlayerMini.play_track index
         = Ok tt [UartWrite [x7e; xff; x06; x03; x00; ph; pl; ch; cl; xef]]
         /\ int_of_byte ph = Z.land (Z.shiftr (Z.max 1 index) 8) 0xFF
         /\ int_of_byte pl = Z.land (Z.max 1 index) 0xFF
         /\ int_of_byte ph * 256 + int_of_byte pl
            = Z.max 1 index mod 65536).
Proof.
  split; [| split].
  - exists xfe, xef. reflexivity.
  - intros level. unfold DFPlayerMini.set_volume.
    rewrite volume_clamp. set (p := Z.min 30 (Z.max 0 level)).
    destruct (send_command_byte x06 p) as (ph & pl & ch & cl & E & Hph & Hpl).
    change (int_of_byte x06) with 0x06 in E.
    exists ph, pl, ch, cl. rewrite E. split; [reflexivity |].
    assert (Hp : 0 <= p <= 30) by (unfold p; lia).
    rewrite Hph, Hpl, high_byte_div, low_byte_mod.
    rewrite (Z.div_small p 256) by lia.
    rewrite (Z.mod_small p 256) by lia.
    repeat split; reflexivity.
  - intros index. unfold DFPlayerMini.play_track.
    rewrite track_clamp. set (p := Z.max 1 index).
    destruct (send_command_byte x03 p) as (ph & pl & ch & cl & E & Hph & Hpl).
    change (int_of_byte x03) with 0x03 in E.
    exists ph, pl, ch, cl. rewrite E. split; [reflexivity |].
    rewrite Hph, Hpl. repeat split; try reflexivity.
    apply big_endian_16.
Qed.

(** C9.  [set_volume (-5)] writes what [set_volume 0] writes,
    [set_volume 99] what [set_volume 30] writes and [play_track 0] what
    [play_track 1] writes.  In general [set_volume] sends its level brought
    into 0..30 and [play_track] sends its index raised to at least 1. *)
Theorem encoder_clamping :
  DFPlayerMini.set_volume (-5) = DFPlayerMini.set_volume 0
  /\ DFPlayerMini.set_volume 99 = DFPlayerMini.set_volume 30
  /\ DFPlayerMini.play_track 0 = DFPlayerMini.play_track 1
  /\ (forall level,
         0 <= Z.min 30 (Z.max 0 level) <= 30
         /\ DFPlayerMini.set_volume level
            = DFPlayerMini.set_volume (Z.min 30 (Z.max 0 level))
         /\ DFPlayerMini.set_volume level
            = (DFPlayerMini._send_command 0x06 (Z.min 30 (Z.max 0 level)) ;;
               emit (Sleep 0.1)))
  /\ (forall index,
         1 <= Z.max 1 index
         /\ DFPlayerMini.play_track index
            = DFPlayerMini.play_track (Z.max 1 index)
         /\ DFPlayerMini.play_track index
            = DFPlayerMini._send_command 0x03 (Z.max 1 index)).
Proof.
  split; [reflexivity |]. split; [reflexivity |]. split; [reflexivity |].
  split.
  - intros level. split; [lia |].
    unfold DFPlayerMini.set_volume. rewrite !volume_clamp.
    replace (Z.min 30 (Z.max 0 (Z.min 30 (Z.max 0 level))))
      with (Z.min 30 (Z.max 0 level)) by lia.
    split; reflexivity.
  - intros index. split; [lia |].
    unfold DFPlayerMini.play_track. rewrite !track_clamp.
    replace (Z.max 1 (Z.max 1 index)) with (Z.max 1 index) by lia.
    split; reflexivity.
Qed.

(** C10.  For an index above 65535 [play_track] neither raises nor clamps:
    it writes one frame whose parameter bytes are [(index >> 8) & 0xFF] and
    [index & 0xFF], that is, the index reduced modulo 65536. *)
Theorem play_track_wraps (index : Z) :
  65535 < index ->
  exists ph pl ch cl,
    DFPlayerMini.play_track index
    = Ok tt [UartWrite [x7e; xff; x06; x03; x00; ph; pl; ch; cl; xef]]
    /\ int_of_byte ph = Z.land (Z.shiftr index 8) 0xFF
    /\ int_of_byte pl = Z.land index 0xFF
    /\ int_of_byte ph * 256 + int_of_byte pl = index mod 65536.
Proof.
  intros Hbig. unfold DFPlayerMini.play_track.
  rewrite track_clamp. replace (Z.max 1 index) with index by lia.
  destruct (send_command_byte x03 index) as (ph & pl & ch & cl & E & Hph & Hpl).
  change (int_of_byte x03) with 0x03 in E.
  exists ph, pl, ch, cl. rewrite E, Hph, Hpl.
  repeat split; try reflexivity. apply big_endian_16.
Qed.

Lemma play_track_wraps_witness :
  65535 < 65539
  /\ exists ph pl ch cl,
       DFPlayerMini.play_track 65539
       = Ok tt [UartWrite [x7e; xff; x06; x03; x00; ph; pl; ch; cl; xef]]
       /\ int_of_byte ph = Z.land (Z.shiftr 65539 8) 0xFF
       /\ int_of_byte pl = Z.land 65539 0xFF
       /\ int_of_byte ph * 256 + int_of_byte pl = 65539 mod 65536.
Proof.
  split; [lia | apply (play_track_wraps 65539); lia].
Defined.

Example play_track_65539 :
  DFPlayerMini.play_track 65539 = DFPlayerMini.play_track 3.
Proof. reflexivity. Qed.

(** ** The polling loop *)

Lemma trace_bind_ok {A B} (a : A) (out : list effect) (k : A -> result B) :
  trace (bind (Ok a out) k) = out ++ trace (k a).
Proof. unfold bind. destruct (k a); reflexivity. Qed.

Lemma main_loop_last_uid (TAG_TO_TRACK : gmap string Z)
    (last_uid : option bytes) (polls : list (option bytes)) :
  exists out,
    main_loop TAG_TO_TRACK last_uid polls
    = Ok (last_uid_after TAG_TO_TRACK last_uid polls) out.
Proof.
  unfold last_uid_after.
  destruct (main_loop_ok TAG_TO_TRACK polls last_uid) as (st & out & E).
  rewrite E. eauto.
Qed.

(** C3.  With the table holding exactly ["04AABBCCDD11"] mapped to track 3
    and the reader answering nothing, the tag, the tag again, nothing, the
    loop writes exactly one frame, 7E FF 06 03 00 00 03 FE F5 EF. *)
Theorem end_to_end_scenario :
  exists last_uid out,
    main_loop {["04AABBCCDD11" := 3]} None
      [None; Some sample_uid; Some sample_uid; None]
    = Ok last_uid out
    /\ uid_bytes_to_hex sample_uid = "04AABBCCDD11"
    /\ frames_written out
       = [[x7e; xff; x06; x03; x00; x00; x03; xfe; xf5; xef]].
Proof.
  eexists _, _. split; [vm_compute; reflexivity |].
  split; reflexivity.
Qed.

(** C4.  Wherever a poll sequence contains a contiguous run of one and the
    same identifier, the loop announces during that run either nothing or a
    single arrival of that identifier, whatever came before and whatever
    follows; in particular three consecutive reads of A from the idle state
    give exactly one arrival of A and no other event. *)
Theorem debounce_one_arrival_per_run (TAG_TO_TRACK : gmap string Z) :
  (forall (before after : list (option bytes)) (id : bytes) (n : nat),
      exists run_events,
        loop_events TAG_TO_TRACK None (before ++ repeat (Some id) n ++ after)
        = loop_events TAG_TO_TRACK None before
            ++ run_events
            ++ loop_events TAG_TO_TRACK
                 (last_uid_after TAG_TO_TRACK None
                    (before ++ repeat (Some id) n))
                 after
        /\ (run_events = [] \/ run_events = [TagArrived id])
        /\ halted (main_loop TAG_TO_TRACK None
                     (before ++ repeat (Some id) n ++ after)) = false)
  /\ (forall A : bytes,
         loop_events TAG_TO_TRACK None [Some A; Some A; Some A]
         = [TagArrived A]).
Proof.
  split.
  - intros before after id n.
    exists (loop_events TAG_TO_TRACK
              (last_uid_after TAG_TO_TRACK None before)
              (repeat (Some id) n)).
    split; [| split].
    + rewrite app_assoc, !loop_events_app, <- app_assoc. reflexivity.
    + set (st := last_uid_after TAG_TO_TRACK None before). clearbody st.
      destruct n as [| n]; [left; reflexivity |].
      cbn [repeat]. rewrite loop_events_cons.
      destruct (decide (st = Some id)) as [-> | Hnew].
      * left. simpl. rewrite bool_decide_true by reflexivity. simpl.
        apply present_run.
      * right.
        assert (Hstep : presence_step st (Some id)
                        = (Some id, [TagArrived id])).
        { destruct st as [last |]; [| reflexivity]. simpl.
          rewrite bool_decide_false by congruence. reflexivity. }
        rewrite Hstep. simpl.
        rewrite (proj1 (present_run TAG_TO_TRACK id n)). reflexivity.
    + destruct (main_loop_ok TAG_TO_TRACK
                  (before ++ repeat (Some id) n ++ after) None)
        as (st & out & E).
      rewrite E. reflexivity.
  - intros A.
    change [Some A; Some A; Some A] with (Some A :: repeat (Some A) 2).
    rewrite loop_events_cons. cbn [presence_step fst snd].
    rewrite (proj1 (present_run TAG_TO_TRACK A 2)). reflexivity.
Qed.

(** C5.  From the idle state the reads A, nothing give the arrival of A
    followed by the removal of A, and the loop is idle again
    ([last_uid] is [None]). *)
Theorem removal_detection (TAG_TO_TRACK : gmap string Z) (A : bytes) :
  loop_events TAG_TO_TRACK None [Some A; None]
  = [TagArrived A; TagRemoved A]
  /\ exists out, main_loop TAG_TO_TRACK None [Some A; None] = Ok None out.
Proof.
  split.
  - rewrite !loop_events_cons. reflexivity.
  - destruct (main_loop_last_uid TAG_TO_TRACK None [Some A; None])
      as (out & E).
    exists out. rewrite E, !last_uid_after_cons. reflexivity.
Qed.

(** C6.  From the idle state the reads A, B with A different from B give
    the arrival of A and then the arrival of B, with no removal in between,
    and the loop then holds B as present. *)
Theorem swap_handling (TAG_TO_TRACK : gmap string Z) (A B : bytes) :
  A <> B ->
  loop_events TAG_TO_TRACK None [Some A; Some B]
  = [TagArrived A; TagArrived B]
  /\ exists out,
       main_loop TAG_TO_TRACK None [Some A; Some B] = Ok (Some B) out.
Proof.
  intros Hne.
  assert (Hstep : presence_step (Some A) (Some B)
                  = (Some B, [TagArrived B])).
  { simpl. rewrite bool_decide_false by congruence. reflexivity. }
  split.
  - rewrite loop_events_cons.
    change (presence_step None (Some A)) with (Some A, [TagArrived A]).
    cbn [fst snd]. rewrite loop_events_cons, Hstep. reflexivity.
  - destruct (main_loop_last_uid TAG_TO_TRACK None [Some A; Some B])
      as (out & E).
    exists out. rewrite E, last_uid_after_cons.
    change (presence_step None (Some A)) with (Some A, [TagArrived A]).
    cbn [fst snd]. rewrite last_uid_after_cons, Hstep. reflexivity.
Qed.

Lemma swap_handling_witness :
  sample_uid <> [x04; x33; x22; x11; xff; x55]
  /\ loop_events ∅ None [Some sample_uid; Some [x04; x33; x22; x11; xff; x55]]
     = [TagArrived sample_uid; TagArrived [x04; x33; x22; x11; xff; x55]]
  /\ exists out,
       main_loop ∅ None [Some sample_uid; Some [x04; x33; x22; x11; xff; x55]]
       = Ok (Some [x04; x33; x22; x11; xff; x55]) out.
Proof.
  split; [discriminate |].
  apply (swap_handling ∅ sample_uid [x04; x33; x22; x11; xff; x55]).
  discriminate.
Defined.

(** C7, as the specification states it, fails: a pass in which the reader
    reports no tag goes back to polling without the debounce pause. *)
Lemma debounce_pause_skipped :
  ~ ends_with_debounce_pause (loop_iteration ∅ None None).
Proof.
  intros (a & out & E). rewrite iteration_absent in E.
  injection E as _ Hout.
  destruct out as [| e [| e' out]]; discriminate Hout.
Qed.

(** C7, amended.  A pass of the loop ends with the debounce pause exactly
    when the reader reported a tag other than the one recorded as present
    (a new tag, mapped or not); a pass that sleeps at all is such a pass.
    When no tag is read or the same tag is still there, the [continue]
    statements return to the poll at once. *)
Theorem debounce_pause_only_after_new_tag (TAG_TO_TRACK : gmap string Z)
    (last_uid uid : option bytes) :
  (ends_with_debounce_pause (loop_iteration TAG_TO_TRACK last_uid uid)
   <-> exists u, uid = Some u /\ last_uid <> Some u)
  /\ (forall s,
         In (Sleep s) (trace (loop_iteration TAG_TO_TRACK last_uid uid))
         -> s = 0.3%Q /\ exists u, uid = Some u /\ last_uid <> Some u).
Proof.
  destruct uid as [u |].
  - destruct (decide (last_uid = Some u)) as [-> | Hnew].
    + rewrite iteration_same. split.
      * split.
        -- intros (a & out & E). injection E as _ Hout.
           destruct out as [| e [| e' out]]; discriminate Hout.
        -- intros (u' & Hu & Hne). congruence.
      * intros s [Hs | []]. discriminate Hs.
    + destruct (iteration_new TAG_TO_TRACK last_uid u Hnew)
        as (mid & Hmid & E).
      rewrite E. split.
      * split; [eauto |]. intros _.
        eexists _, ([_; _] ++ mid). rewrite <- app_assoc. reflexivity.
      * intros s Hs. simpl in Hs.
        destruct Hs as [Hs | [Hs | Hs]]; try discriminate Hs.
        apply in_app_or in Hs. destruct Hs as [Hs | [Hs | []]].
        -- exfalso. unfold handled in Hmid.
           destruct (TAG_TO_TRACK !! uid_bytes_to_hex u) as [track |].
           ++ destruct Hmid as (frame & _ & ->).
              destruct Hs as [Hs | [Hs | []]]; discriminate Hs.
           ++ subst mid. destruct Hs as [Hs | []]. discriminate Hs.
        -- injection Hs as <-. eauto.
  - assert (Hnone : ~ exists u, @None bytes = Some u /\ last_uid <> Some u)
      by (intros (u & Hu & _); discriminate Hu).
    destruct last_uid as [last |].
    + rewrite iteration_removed. split.
      * split; [| intros H; destruct (Hnone H)].
        intros (a & out & E). injection E as _ Hout.
        destruct out as [| e [| e' [| e'' out]]]; discriminate Hout.
      * intros s [Hs | [Hs | []]]; discriminate Hs.
    + rewrite iteration_absent. split.
      * split; [| intros H; destruct (Hnone H)].
        intros (a & out & E). injection E as _ Hout.
        destruct out as [| e [| e' out]]; discriminate Hout.
      * intros s [Hs | []]. discriminate Hs.
Qed.

(** C8.  When a new tag arrives whose UID string has no entry in the table,
    the pass writes no frame: it polls, announces the tag, prints the
    no-mapping notice and pauses.  It ends normally with the tag recorded in
    [last_uid], the loop goes on with the remaining polls, and a following
    read of the same tag does nothing but poll. *)
Theorem unmapped_tag_notice (TAG_TO_TRACK : gmap string Z)
    (last_uid : option bytes) (uid : bytes) :
  last_uid <> Some uid ->
  TAG_TO_TRACK !! uid_bytes_to_hex uid = None ->
  let pass :=
    [ReadPassiveTarget 0.5 (Some uid);
     Print [PStr "Tag detected, UID ="; PStr (uid_bytes_to_hex uid)];
     Print [PStr NO_TRACK_NOTICE];
     Sleep 0.3] in
  loop_iteration TAG_TO_TRACK last_uid (Some uid) = Ok (Some uid) pass
  /\ frames_written pass = []
  /\ iteration_events last_uid (Some uid) pass = [TagArrived uid]
  /\ (forall polls,
         trace (main_loop TAG_TO_TRACK last_uid (Some uid :: polls))
         = pass ++ trace (main_loop TAG_TO_TRACK (Some uid) polls))
  /\ loop_iteration TAG_TO_TRACK (Some uid) (Some uid)
     = Ok (Some uid) [ReadPassiveTarget 0.5 (Some uid)]
  /\ iteration_events (Some uid) (Some uid)
       [ReadPassiveTarget 0.5 (Some uid)] = [].
Proof.
  intros Hnew Hmiss pass.
  assert (E : loop_iteration TAG_TO_TRACK last_uid (Some uid)
              = Ok (Some uid) pass).
  { destruct (iteration_new TAG_TO_TRACK last_uid uid Hnew)
      as (mid & Hmid & E).
    unfold handled in Hmid. rewrite Hmiss in Hmid. subst mid. exact E. }
  split; [exact E |]. split; [reflexivity |]. split.
  { unfold pass. cbn. rewrite String.eqb_refl. reflexivity. }
  split.
  { intros polls. cbn [main_loop]. rewrite E.
    exact (trace_bind_ok (Some uid) pass
             (fun last => main_loop TAG_TO_TRACK last polls)). }
  split; [apply iteration_same | reflexivity].
Qed.

Lemma unmapped_tag_notice_witness :
  @None bytes <> Some sample_uid
  /\ (∅ : gmap string Z) !! uid_bytes_to_hex sample_uid = None
  /\ loop_iteration ∅ None (Some sample_uid)
     = Ok (Some sample_uid)
         [ReadPassiveTarget 0.5 (Some sample_uid);
          Print [PStr "Tag detected, UID ="; PStr "04AABBCCDD11"];
          Print [PStr NO_TRACK_NOTICE];
          Sleep 0.3].
Proof.
  split; [discriminate |]. split; [reflexivity |].
  apply (unmapped_tag_notice ∅ None sample_uid); [discriminate | reflexivity].
Defined.

(** ** More on the encoder *)

Lemma byte_of_int_outside (z : Z) :
  z < 0 \/ 255 < z -> byte_of_int z = None.
Proof.
  intros Hz. unfold byte_of_int.
  destruct (Z.ltb_spec z 0) as [_ | Hpos]; [reflexivity |].
  apply Byte.of_N_None_iff. lia.
Qed.

Lemma low16_bytes (p : Z) :
  Z.land (Z.shiftr (p mod 65536) 8) 0xFF = Z.land (Z.shiftr p 8) 0xFF
  /\ Z.land (p mod 65536) 0xFF = Z.land p 0xFF.
Proof.
  rewrite !high_byte_div, !low_byte_mod.
  change 65536 with (256 * 256). rewrite Z.rem_mul_r by lia.
  pose proof (Z.mod_pos_bound p 256 ltac:(lia)).
  pose proof (Z.mod_pos_bound (p / 256) 256 ltac:(lia)).
  split.
  - assert (Hq : (p mod 256 + 256 * ((p / 256) mod 256)) / 256
                 = (p / 256) mod 256).
    { symmetry. apply (Z.div_unique _ 256 _ (p mod 256)); lia. }
    rewrite Hq. apply Z.mod_mod. lia.
  - replace (p mod 256 + 256 * ((p / 256) mod 256))
      with (p mod 256 + (p / 256) mod 256 * 256) by lia.
    rewrite Z.mod_add by lia. apply Z.mod_mod. lia.
Qed.

Lemma send_command_low16 (cmd p : Z) :
  DFPlayerMini._send_command cmd (p mod 65536)
  = DFPlayerMini._send_command cmd p.
Proof.
  unfold DFPlayerMini._send_command. cbv zeta.
  destruct (low16_bytes p) as [-> ->]. reflexivity.
Qed.

Lemma send_command_determines (cmd cmd' p p' : Z) :
  0 <= cmd < 256 -> 0 <= cmd' < 256 ->
  DFPlayerMini._send_command cmd p = DFPlayerMini._send_command cmd' p' ->
  cmd = cmd' /\ p mod 65536 = p' mod 65536.
Proof.
  intros Hc Hc' Heq.
  destruct (send_command_frame cmd p Hc)
    as (c & ph & pl & ch & cl & E & Hcmd & Hph & Hpl & _).
  destruct (send_command_frame cmd' p' Hc')
    as (c' & ph' & pl' & ch' & cl' & E' & Hcmd' & Hph' & Hpl' & _).
  rewrite E, E' in Heq. injection Heq as -> -> -> _ _.
  split; [congruence |].
  rewrite <- !big_endian_16. congruence.
Qed.

(** X1.  [_send_command] raises [ValueError], having written nothing,
    exactly when the command code does not fit a byte; the parameter never
    makes it raise. *)
Theorem send_command_raises_iff (cmd param : Z) :
  (halted (DFPlayerMini._send_command cmd param) = true
   <-> cmd < 0 \/ 255 < cmd)
  /\ (cmd < 0 \/ 255 < cmd
      -> DFPlayerMini._send_command cmd param = Raise ValueError []).
Proof.
  assert (Hout : cmd < 0 \/ 255 < cmd
                 -> DFPlayerMini._send_command cmd param
                    = Raise ValueError []).
  { intros Hz. unfold DFPlayerMini._send_command, bytes_of_ints.
    cbn [mapM]. rewrite (byte_of_int_outside cmd Hz). reflexivity. }
  split; [| exact Hout]. split.
  - intros Hhalt.
    destruct (Z_lt_dec cmd 0) as [? | ?]; [lia |].
    destruct (Z_lt_dec 255 cmd) as [? | ?]; [lia |].
    destruct (send_command_frame cmd param ltac:(lia))
      as (c & ph & pl & ch & cl & E & _).
    rewrite E in Hhalt. discriminate Hhalt.
  - intros Hz. rewrite (Hout Hz). reflexivity.
Qed.

(** X2.  For command codes that fit a byte, two calls of [_send_command]
    write the same frame exactly when the codes are equal and the
    parameters agree modulo 65536: the frame determines the command and the
    low 16 bits of the parameter, and nothing else of the parameter is
    sent. *)
Theorem send_command_eq_iff (cmd cmd' p p' : Z) :
  0 <= cmd < 256 -> 0 <= cmd' < 256 ->
  (DFPlayerMini._send_command cmd p = DFPlayerMini._send_command cmd' p'
   <-> cmd = cmd' /\ p mod 65536 = p' mod 65536).
Proof.
  intros Hc Hc'. split.
  - apply send_command_determines; assumption.
  - intros [-> Hp].
    rewrite <- (send_command_low16 cmd' p), Hp. apply send_command_low16.
Qed.

Lemma send_command_eq_iff_witness :
  0 <= 0x03 < 256 /\ 0 <= 0x03 < 256
  /\ (DFPlayerMini._send_command 0x03 (-1)
      = DFPlayerMini._send_command 0x03 65535
      <-> 0x03 = 0x03 /\ (-1) mod 65536 = 65535 mod 65536).
Proof.
  split; [lia |]. split; [lia |].
  apply (send_command_eq_iff 0x03 0x03 (-1) 65535); lia.
Defined.

(** X3.  Two track numbers make [play_track] write the same frame exactly
    when, raised to at least 1, they agree modulo 65536; so the tracks
    1..65535 all have different frames. *)
Theorem play_track_eq_iff (t t' : Z) :
  DFPlayerMini.play_track t = DFPlayerMini.play_track t'
  <-> Z.max 1 t mod 65536 = Z.max 1 t' mod 65536.
Proof.
  unfold DFPlayerMini.play_track. rewrite !track_clamp. split.
  - intros Heq.
    apply (send_command_determines 0x03 0x03) in Heq; [| lia | lia].
    apply Heq.
  - intros Hp.
    rewrite <- (send_command_low16 0x03 (Z.max 1 t)), Hp.
    apply send_command_low16.
Qed.

(** X4.  Two levels make [set_volume] produce the same output exactly when
    they are the same once brought into 0..30. *)
Theorem set_volume_eq_iff (a b : Z) :
  DFPlayerMini.set_volume a = DFPlayerMini.set_volume b
  <-> Z.min 30 (Z.max 0 a) = Z.min 30 (Z.max 0 b).
Proof.
  unfold DFPlayerMini.set_volume. rewrite !volume_clamp. split.
  - intros Heq.
    destruct (send_command_frame 0x06 (Z.min 30 (Z.max 0 a)) ltac:(lia))
      as (c & ph & pl & ch & cl & E & _ & _ & Hpl & _).
    destruct (send_command_frame 0x06 (Z.min 30 (Z.max 0 b)) ltac:(lia))
      as (c' & ph' & pl' & ch' & cl' & E' & _ & _ & Hpl' & _).
    rewrite E, E' in Heq. injection Heq as _ _ Hlow _ _.
    rewrite Hlow in Hpl. rewrite Hpl' in Hpl.
    rewrite !low_byte_mod in Hpl.
    rewrite !Z.mod_small in Hpl by lia. congruence.
  - intros ->. reflexivity.
Qed.

(** X5.  The clamp of [play_track] to at least 1 does not survive the
    16-bit truncation: for a positive multiple of 65536 the frame carries
    the parameter bytes 00 00, the frame of parameter 0. *)
Theorem play_track_multiple_of_65536 (k : Z) :
  1 <= k ->
  DFPlayerMini.play_track (65536 * k)
  = Ok tt [UartWrite [x7e; xff; x06; x03; x00; x00; x00; xfe; xf8; xef]].
Proof.
  intros Hk. unfold DFPlayerMini.play_track. rewrite track_clamp.
  replace (Z.max 1 (65536 * k)) with (65536 * k) by lia.
  rewrite <- send_command_low16.
  rewrite Z.mul_comm, Z.mod_mul by lia. reflexivity.
Qed.

Lemma play_track_multiple_of_65536_witness :
  1 <= 1
  /\ DFPlayerMini.play_track (65536 * 1)
     = Ok tt [UartWrite [x7e; xff; x06; x03; x00; x00; x00; xfe; xf8; xef]].
Proof.
  split; [lia | apply (play_track_multiple_of_65536 1); lia].
Defined.

(** ** UID strings *)

Lemma uid_bytes_to_hex_cons (b : byte) (uid : bytes) :
  uid_bytes_to_hex (b :: uid)
  = String (hex_digit (Byte.to_N b / 16))
      (String (hex_digit (Byte.to_N b mod 16)) (uid_bytes_to_hex uid)).
Proof.
  unfold uid_bytes_to_hex. destruct uid as [| b' uid]; reflexivity.
Qed.

Lemma byte_of_hex_format (b : byte) :
  byte_of_hex (hex_digit (Byte.to_N b / 16)) (hex_digit (Byte.to_N b mod 16))
  = Some b.
Proof. destruct b; reflexivity. Qed.

Lemma hex_to_uid_bytes_to_hex (uid : bytes) :
  hex_to_uid_bytes (uid_bytes_to_hex uid) = Some uid.
Proof.
  induction uid as [| b uid IH]; [reflexivity |].
  rewrite uid_bytes_to_hex_cons. cbn [hex_to_uid_bytes].
  rewrite byte_of_hex_format, IH. reflexivity.
Qed.

Lemma hex_digit_in_alphabet (n : N) :
  (n < 16)%N ->
  In (hex_digit n) (list_ascii_of_string "0123456789ABCDEF").
Proof.
  intros Hn. unfold hex_digit. apply nth_In.
  change (List.length (list_ascii_of_string "0123456789ABCDEF")) with 16%nat.
  lia.
Qed.

(** X6.  The UID string has two characters per byte of the UID; the empty
    UID gives the empty string. *)
Theorem uid_bytes_to_hex_length (uid : bytes) :
  String.length (uid_bytes_to_hex uid) = (2 * List.length uid)%nat.
Proof.
  induction uid as [| b uid IH]; [reflexivity |].
  rewrite uid_bytes_to_hex_cons. cbn [String.length List.length].
  rewrite IH. lia.
Qed.

(** X7.  Different UIDs have different UID strings, so two tags never share
    a key of the table. *)
Theorem uid_bytes_to_hex_inj (uid uid' : bytes) :
  uid_bytes_to_hex uid = uid_bytes_to_hex uid' -> uid = uid'.
Proof.
  intros Heq.
  pose proof (hex_to_uid_bytes_to_hex uid) as H.
  rewrite Heq, hex_to_uid_bytes_to_hex in H. congruence.
Qed.

Lemma uid_bytes_to_hex_inj_witness :
  uid_bytes_to_hex sample_uid = uid_bytes_to_hex [x04; xaa; xbb; xcc; xdd; x11]
  /\ sample_uid = [x04; xaa; xbb; xcc; xdd; x11].
Proof.
  split; [reflexivity |].
  apply (uid_bytes_to_hex_inj sample_uid [x04; xaa; xbb; xcc; xdd; x11]).
  reflexivity.
Defined.

(** X8.  Every character of a UID string is a decimal digit or one of the
    capitals A to F: upper-case hexadecimal with no separator or prefix. *)
Theorem uid_bytes_to_hex_alphabet (uid : bytes) :
  Forall (fun c => In c (list_ascii_of_string "0123456789ABCDEF"))
    (list_ascii_of_string (uid_bytes_to_hex uid)).
Proof.
  induction uid as [| b uid IH]; [constructor |].
  rewrite uid_bytes_to_hex_cons. cbn [list_ascii_of_string].
  pose proof (Byte.to_N_bounded b) as Hb.
  constructor; [| constructor; [| exact IH]].
  - apply hex_digit_in_alphabet. apply N.Div0.div_lt_upper_bound. lia.
  - apply hex_digit_in_alphabet. apply N.mod_lt. lia.
Qed.

(** X9.  The UID string of a concatenation is the concatenation of the UID
    strings: each byte is rendered on its own, whatever surrounds it. *)
Theorem uid_bytes_to_hex_app (uid uid' : bytes) :
  uid_bytes_to_hex (uid ++ uid')
  = (uid_bytes_to_hex uid ++ uid_bytes_to_hex uid')%string.
Proof.
  induction uid as [| b uid IH]; [reflexivity |].
  rewrite <- app_comm_cons, !uid_bytes_to_hex_cons, IH. reflexivity.
Qed.

(** ** The loop as a whole *)

Lemma play_track_frame (track_number : Z) :
  exists ph pl ch cl,
    DFPlayerMini.play_track track_number
    = Ok tt [UartWrite [x7e; xff; x06; x03; x00; ph; pl; ch; cl; xef]]
    /\ int_of_byte ph * 256 + int_of_byte pl
       = Z.max 1 track_number mod 65536.
Proof.
  unfold DFPlayerMini.play_track. rewrite track_clamp.
  destruct (send_command_byte x03 (Z.max 1 track_number))
    as (ph & pl & ch & cl & E & Hph & Hpl).
  change (int_of_byte x03) with 0x03 in E.
  exists ph, pl, ch, cl. split; [exact E |].
  rewrite Hph, Hpl. apply big_endian_16.
Qed.

Lemma presence_step_state (last_uid uid : option bytes) :
  (presence_step last_uid uid).1 = uid.
Proof.
  destruct last_uid as [last |], uid as [u |]; try reflexivity.
  simpl. destruct (decide (u = last)) as [-> | Hne].
  - rewrite bool_decide_true by reflexivity. reflexivity.
  - rewrite bool_decide_false by assumption. reflexivity.
Qed.

Lemma presence_step_cases (last_uid uid : option bytes) :
  (uid = last_uid /\ (presence_step last_uid uid).2 = [])
  \/ (exists u, uid = Some u /\ last_uid <> Some u
               /\ (presence_step last_uid uid).2 = [TagArrived u])
  \/ (exists last, uid = None /\ last_uid = Some last
                  /\ (presence_step last_uid uid).2 = [TagRemoved last]).
Proof.
  destruct uid as [u |], last_uid as [last |]; simpl.
  - destruct (decide (u = last)) as [-> | Hne].
    + left. rewrite bool_decide_true by reflexivity. auto.
    + right. left. exists u. rewrite bool_decide_false by assumption.
      repeat split. congruence.
  - right. left. exists u. repeat split. discriminate.
  - right. right. eauto.
  - left. auto.
Qed.

Lemma last_cons {A} (x d : A) (l : list A) :
  List.last (x :: l) d = List.last l x.
Proof.
  revert x d. induction l as [| y l IH]; intros x d; [reflexivity |].
  change (List.last (x :: y :: l) d) with (List.last (y :: l) d).
  rewrite !IH. reflexivity.
Qed.

Section LoopSummary.

Variable TAG_TO_TRACK : gmap string Z.

Lemma iteration_summary (last_uid uid : option bytes) :
  exists out,
    loop_iteration TAG_TO_TRACK last_uid uid = Ok uid out
    /\ iteration_events last_uid uid out = (presence_step last_uid uid).2
    /\ frames_written out
       = play_frames TAG_TO_TRACK (presence_step last_uid uid).2
    /\ polls_made out = [(0.5%Q, uid)]
    /\ pauses out
       = map (fun _ => 0.3%Q)
           (List.filter is_arrival (presence_step last_uid uid).2)
    /\ Forall is_play_frame (frames_written out)
    /\ (List.length (frames_written out) <= 1)%nat.
Proof.
  destruct uid as [u |].
  - destruct (decide (last_uid = Some u)) as [-> | Hnew].
    + rewrite iteration_same. eexists. split; [reflexivity |].
      simpl. rewrite bool_decide_true by reflexivity.
      repeat split; try reflexivity; [constructor | simpl; lia].
    + destruct (iteration_new TAG_TO_TRACK last_uid u Hnew)
        as (mid & Hmid & E).
      rewrite E.
      assert (Hstep : (presence_step last_uid (Some u)).2 = [TagArrived u]).
      { destruct last_uid as [last |]; [| reflexivity]. simpl.
        rewrite bool_decide_false by congruence. reflexivity. }
      rewrite Hstep. eexists. split; [reflexivity |].
      assert (Hev : iteration_events last_uid (Some u)
                      ([ReadPassiveTarget 0.5 (Some u);
                        Print [PStr "Tag detected, UID =";
                               PStr (uid_bytes_to_hex u)]]
                       ++ mid ++ [Sleep 0.3])
                    = [TagArrived u]).
      { unfold iteration_events. rewrite omap_app, omap_app.
        fold (iteration_events last_uid (Some u) mid).
        rewrite (handled_silent _ _ _ _ Hmid).
        cbn. rewrite String.eqb_refl. reflexivity. }
      split; [exact Hev |].
      unfold handled in Hmid. unfold play_frames. cbn [flat_map].
      destruct (TAG_TO_TRACK !! uid_bytes_to_hex u) as [track |].
      * destruct Hmid as (frame & Eplay & ->).
        destruct (play_track_frame track) as (ph & pl & ch & cl & Ef & _).
        rewrite Eplay in Ef. injection Ef as ->. rewrite Eplay.
        repeat split; try reflexivity.
        repeat constructor. exists ph, pl, ch, cl. reflexivity.
      * subst mid.
        repeat split; try reflexivity; [constructor | simpl; lia].
  - destruct last_uid as [last |].
    + rewrite iteration_removed. eexists. split; [reflexivity |].
      repeat split; try reflexivity; [constructor | simpl; lia].
    + rewrite iteration_absent. eexists. split; [reflexivity |].
      repeat split; try reflexivity; [constructor | simpl; lia].
Qed.

Lemma play_frames_app (events events' : list event) :
  play_frames TAG_TO_TRACK (events ++ events')
  = play_frames TAG_TO_TRACK events ++ play_frames TAG_TO_TRACK events'.
Proof. apply flat_map_app. Qed.

Lemma main_loop_summary (polls : list (option bytes)) :
  forall last_uid, exists out,
    main_loop TAG_TO_TRACK last_uid polls = Ok (List.last polls last_uid) out
    /\ frames_written out
       = play_frames TAG_TO_TRACK (loop_events TAG_TO_TRACK last_uid polls)
    /\ polls_made out = map (fun uid => (0.5%Q, uid)) polls
    /\ pauses out
       = map (fun _ => 0.3%Q)
           (List.filter is_arrival (loop_events TAG_TO_TRACK last_uid polls))
    /\ Forall is_play_frame (frames_written out)
    /\ (List.length (frames_written out) <= List.length polls)%nat.
Proof.
  induction polls as [| uid polls IH]; intros last_uid.
  - exists []. repeat split; try reflexivity. constructor.
  - destruct (iteration_summary last_uid uid)
      as (out1 & E1 & _ & Hf1 & Hp1 & Hs1 & Hall1 & Hlen1).
    destruct (IH uid) as (out2 & E2 & Hf2 & Hp2 & Hs2 & Hall2 & Hlen2).
    exists (out1 ++ out2).
    rewrite last_cons, loop_events_cons, presence_step_state.
    split; [cbn [main_loop]; rewrite E1; unfold bind; rewrite E2; reflexivity |].
    unfold frames_written, polls_made, pauses in *.
    rewrite !omap_app, play_frames_app, List.filter_app, map_app.
    rewrite Hf1, Hf2, Hp1, Hp2, Hs1, Hs2.
    repeat split; try reflexivity.
    + apply Forall_app. rewrite <- Hf1, <- Hf2. split; assumption.
    + rewrite <- Hf1, <- Hf2, length_app. simpl. lia.
Qed.

End LoopSummary.

(** X10.  Whatever the table holds (zero, negative or huge track numbers
    included) and whatever the reader answers, the loop never raises, and
    it calls [read_passive_target] exactly once per pass, with a timeout
    of 0.5 s. *)
Theorem main_loop_never_raises (TAG_TO_TRACK : gmap string Z)
    (last_uid : option bytes) (polls : list (option bytes)) :
  halted (main_loop TAG_TO_TRACK last_uid polls) = false
  /\ polls_made (trace (main_loop TAG_TO_TRACK last_uid polls))
     = map (fun uid => (0.5%Q, uid)) polls.
Proof.
  destruct (main_loop_summary TAG_TO_TRACK polls last_uid)
    as (out & E & _ & Hp & _).
  rewrite E. split; [reflexivity | exact Hp].
Qed.

(** X11.  After every pass [last_uid] is what the reader answered in that
    pass: after a run it is the last answer, or the initial value when
    there was no pass. *)
Theorem last_uid_is_last_poll (TAG_TO_TRACK : gmap string Z)
    (last_uid : option bytes) (polls : list (option bytes)) :
  exists out,
    main_loop TAG_TO_TRACK last_uid polls
    = Ok (List.last polls last_uid) out.
Proof.
  destruct (main_loop_summary TAG_TO_TRACK polls last_uid)
    as (out & E & _).
  exists out. exact E.
Qed.

(** X12.  The frames the loop writes are exactly the [play_track] frames of
    the arrivals whose UID string is in the table, in the order of the
    arrivals: nothing is written for a removal, for an unmapped tag, or
    while a tag stays on the reader. *)
Theorem frames_follow_arrivals (TAG_TO_TRACK : gmap string Z)
    (last_uid : option bytes) (polls : list (option bytes)) :
  frames_written (trace (main_loop TAG_TO_TRACK last_uid polls))
  = play_frames TAG_TO_TRACK (loop_events TAG_TO_TRACK last_uid polls).
Proof.
  destruct (main_loop_summary TAG_TO_TRACK polls last_uid)
    as (out & E & Hf & _).
  rewrite E. exact Hf.
Qed.

(** X13.  The loop only ever sends PlayTrack frames (never a Reset or a
    SetVolume frame), and at most one frame per pass. *)
Theorem loop_sends_only_play_frames (TAG_TO_TRACK : gmap string Z)
    (last_uid : option bytes) (polls : list (option bytes)) :
  Forall is_play_frame
    (frames_written (trace (main_loop TAG_TO_TRACK last_uid polls)))
  /\ (List.length
        (frames_written (trace (main_loop TAG_TO_TRACK last_uid polls)))
      <= List.length polls)%nat.
Proof.
  destruct (main_loop_summary TAG_TO_TRACK polls last_uid)
    as (out & E & _ & _ & _ & Hall & Hlen).
  rewrite E. split; assumption.
Qed.

(** X14.  The events of a run are coherent with the reader's state: every
    removal names the tag that was present just before it, every arrival
    names a tag other than the one present; so a removal is never reported
    when idle and never twice in a row. *)
Theorem events_coherent (TAG_TO_TRACK : gmap string Z)
    (last_uid : option bytes) (polls : list (option bytes)) :
  coherent last_uid (loop_events TAG_TO_TRACK last_uid polls).
Proof.
  revert last_uid.
  induction polls as [| uid polls IH]; intros last_uid; [exact I |].
  rewrite loop_events_cons, presence_step_state.
  destruct (presence_step_cases last_uid uid)
    as [[-> ->] | [(u & -> & Hne & ->) | (last & -> & -> & ->)]].
  - apply IH.
  - simpl. split; [exact Hne | apply IH].
  - simpl. split; [reflexivity | apply IH].
Qed.

(** X15.  The events do not depend on the table: which tags arrive and
    leave is decided by the reader's answers alone. *)
Theorem loop_events_table_independent (TAG_TO_TRACK TAG_TO_TRACK' : gmap string Z)
    (polls : list (option bytes)) :
  forall last_uid,
    loop_events TAG_TO_TRACK last_uid polls
    = loop_events TAG_TO_TRACK' last_uid polls.
Proof.
  induction polls as [| uid polls IH]; intros last_uid; [reflexivity |].
  rewrite !loop_events_cons, IH. reflexivity.
Qed.

(** X16.  When a new tag arrives whose UID string is mapped to [track], the
    pass polls, announces the tag, prints the track number from the table,
    writes one PlayTrack frame whose parameter is the track number raised
    to at least 1 (modulo 65536), pauses 0.3 s and records the tag. *)
Theorem mapped_tag_plays (TAG_TO_TRACK : gmap string Z)
    (last_uid : option bytes) (uid : bytes) (track : Z) :
  last_uid <> Some uid ->
  TAG_TO_TRACK !! uid_bytes_to_hex uid = Some track ->
  exists ph pl ch cl,
    loop_iteration TAG_TO_TRACK last_uid (Some uid)
    = Ok (Some uid)
        [ReadPassiveTarget 0.5 (Some uid);
         Print [PStr "Tag detected, UID ="; PStr (uid_bytes_to_hex uid)];
         Print [PStr "Playing track"; PInt track];
         UartWrite [x7e; xff; x06; x03; x00; ph; pl; ch; cl; xef];
         Sleep 0.3]
    /\ int_of_byte ph * 256 + int_of_byte pl = Z.max 1 track mod 65536.
Proof.
  intros Hnew Hmap.
  destruct (iteration_new TAG_TO_TRACK last_uid uid Hnew) as (mid & Hmid & E).
  unfold handled in Hmid. rewrite Hmap in Hmid.
  destruct Hmid as (frame & Eplay & ->).
  destruct (play_track_frame track) as (ph & pl & ch & cl & Ef & Hparam).
  rewrite Eplay in Ef. injection Ef as ->.
  exists ph, pl, ch, cl. split; [exact E | exact Hparam].
Qed.

Lemma mapped_tag_plays_witness :
  @None bytes <> Some sample_uid
  /\ ({["04AABBCCDD11" := 3]} : gmap string Z) !! uid_bytes_to_hex sample_uid
     = Some 3
  /\ exists ph pl ch cl,
       loop_iteration {["04AABBCCDD11" := 3]} None (Some sample_uid)
       = Ok (Some sample_uid)
           [ReadPassiveTarget 0.5 (Some sample_uid);
            Print [PStr "Tag detected, UID =";
                   PStr (uid_bytes_to_hex sample_uid)];
            Print [PStr "Playing track"; PInt 3];
            UartWrite [x7e; xff; x06; x03; x00; ph; pl; ch; cl; xef];
            Sleep 0.3]
       /\ int_of_byte ph * 256 + int_of_byte pl = Z.max 1 3 mod 65536.
Proof.
  split; [discriminate |]. split; [reflexivity |].
  apply (mapped_tag_plays {["04AABBCCDD11" := 3]} None sample_uid 3);
    [discriminate | reflexivity].
Defined.

(** X17.  While the reader sees nothing and no tag is recorded, the loop
    only polls: no notice, no frame, no pause, for any number of passes. *)
Theorem idle_polling_silent (TAG_TO_TRACK : gmap string Z) (n : nat) :
  main_loop TAG_TO_TRACK None (repeat None n)
  = Ok None (repeat (ReadPassiveTarget 0.5 None) n).
Proof.
  induction n as [| n IH]; [reflexivity |].
  cbn [repeat main_loop]. rewrite iteration_absent.
  unfold bind. rewrite IH. reflexivity.
Qed.

(** X18.  The loop sleeps once per arrival, always for 0.3 s, and at no
    other time. *)
Theorem one_pause_per_arrival (TAG_TO_TRACK : gmap string Z)
    (last_uid : option bytes) (polls : list (option bytes)) :
  pauses (trace (main_loop TAG_TO_TRACK last_uid polls))
  = map (fun _ => 0.3%Q)
      (List.filter is_arrival (loop_events TAG_TO_TRACK last_uid polls)).
Proof.
  destruct (main_loop_summary TAG_TO_TRACK polls last_uid)
    as (out & E & _ & _ & Hs & _).
  rewrite E. exact Hs.
Qed.

(** X19.  A single empty read between two reads of the same tag makes the
    tag arrive again: the events are arrival, removal, arrival, and a
    mapped tag has its frame written twice. *)
Theorem redetect_after_dropout (TAG_TO_TRACK : gmap string Z) (A : bytes) :
  loop_events TAG_TO_TRACK None [Some A; None; Some A]
  = [TagArrived A; TagRemoved A; TagArrived A]
  /\ frames_written
       (trace (main_loop TAG_TO_TRACK None [Some A; None; Some A]))
     = play_frames TAG_TO_TRACK [TagArrived A; TagArrived A].
Proof.
  assert (Hev : loop_events TAG_TO_TRACK None [Some A; None; Some A]
                = [TagArrived A; TagRemoved A; TagArrived A]).
  { rewrite !loop_events_cons. reflexivity. }
  split; [exact Hev |].
  destruct (main_loop_summary TAG_TO_TRACK [Some A; None; Some A] None)
    as (out & E & Hf & _).
  rewrite E, Hev in *. exact Hf.
Qed.

(** ** Start-up *)

Lemma set_volume_frame (level : Z) :
  exists pl ch cl,
    DFPlayerMini.set_volume level
    = Ok tt [UartWrite [x7e; xff; x06; x06; x00; x00; pl; ch; cl; xef];
             Sleep 0.1]
    /\ int_of_byte pl = Z.min 30 (Z.max 0 level).
Proof.
  unfold DFPlayerMini.set_volume. rewrite volume_clamp.
  set (p := Z.min 30 (Z.max 0 level)).
  assert (Hp : 0 <= p <= 30) by (unfold p; lia).
  destruct (send_command_byte x06 p) as (ph & pl & ch & cl & E & Hph & Hpl).
  change (int_of_byte x06) with 0x06 in E.
  rewrite high_byte_div, (Z.div_small p 256) in Hph by lia.
  rewrite low_byte_mod, (Z.mod_small p 256) in Hpl by lia.
  apply (int_of_byte_inj ph x00) in Hph. subst ph.
  exists pl, ch, cl. rewrite E. split; [reflexivity | exact Hpl].
Qed.

(** X20.  [init_dfplayer] never raises.  It waits 1 s, writes the Reset
    frame, waits 1.5 s, writes one SetVolume frame carrying the configured
    volume brought into 0..30, waits 0.1 s and prints the configured
    volume as it stands; the volume printed is the volume sent exactly
    when the configured value lies in 0..30. *)
Theorem init_dfplayer_trace (DEFAULT_VOLUME : Z) :
  exists pl ch cl,
    init_dfplayer DEFAULT_VOLUME
    = Ok tt
        [Print [PStr "Initializing DFPlayer Mini over UART..."];
         Sleep 1.0;
         UartWrite [x7e; xff; x06; x0c; x00; x00; x00; xfe; xef; xef];
         Sleep 1.5;
         UartWrite [x7e; xff; x06; x06; x00; x00; pl; ch; cl; xef];
         Sleep 0.1;
         Print [PStr "DFPlayer ready at volume"; PInt DEFAULT_VOLUME]]
    /\ int_of_byte pl = Z.min 30 (Z.max 0 DEFAULT_VOLUME)
    /\ (int_of_byte pl = DEFAULT_VOLUME <-> 0 <= DEFAULT_VOLUME <= 30).
Proof.
  destruct (set_volume_frame DEFAULT_VOLUME) as (pl & ch & cl & E & Hpl).
  exists pl, ch, cl. split; [| split; [exact Hpl | lia]].
  unfold init_dfplayer. rewrite E. reflexivity.
Qed.
